(** * uw-labs/uuid: a shallow embedding of [uuid.go]

    The Go package represents a UUID as a [[16]byte] array, parses and prints
    the canonical 36 character text form, and derives name based UUIDs
    (RFC 4122 versions 3 and 5) from an MD5 or SHA-1 digest.

    Conventions of the embedding:
    - a Go [byte] is a [Byte.byte]; arithmetic on it is done in [Z] through
      the coercion [u8], and a conversion back to [uint8] wraps modulo 256;
    - a Go [string] and a Go [[]byte] are both [list byte] (a Go string is a
      sequence of bytes, and [len] and indexing count bytes);
    - the array [UUID] is a [list byte] whose length is 16 ([wf_uuid]);
    - a function that returns [(value, error)] returns a pair whose second
      component is an [option error], [None] standing for [nil];
    - a method that mutates its receiver or writes through a pointer returns
      the new receiver and the new pointee. *)

From Stdlib Require Import ZArith List Lia Bool.
From Stdlib Require Import Strings.Byte.
From Stdlib Require Strings.String.
Import ListNotations String.StringSyntax.
Delimit Scope string_scope with string.

Local Open Scope Z_scope.

(** ** Bytes, strings and slices *)

Abbreviation byte := Byte.byte.

(** The numeric value of a byte. *)
Definition u8 (b : byte) : Z := Z.of_N (Byte.to_N b).
Coercion u8 : byte >-> Z.

(** Go's conversion [uint8(z)] (and the implicit wrap of [uint8]
    arithmetic): the value modulo 2^8. *)
Definition uint8 (z : Z) : byte :=
  match Byte.of_N (Z.to_N (z mod 256)) with
  | Some b => b
  | None => Byte.x00
  end.

(** A string literal as its bytes. *)
Definition str (s : String.string) : list byte := String.list_byte_of_string s.
Arguments str s%_string.

(** [len(s)] *)
Definition len (s : list byte) : Z := Z.of_nat (length s).

(** [s[i]] for an index that is in range; every index of the source is a
    constant below the length of its array, or a nibble into the 16 byte
    [hextable]. *)
Definition index (s : list byte) (i : Z) : byte := nth (Z.to_nat i) s Byte.x00.

(** [s[i] = v] on an array, for an index in range. *)
Fixpoint store_nat (s : list byte) (i : nat) (v : byte) : list byte :=
  match s, i with
  | [], _ => []
  | _ :: t, O => v :: t
  | h :: t, S j => h :: store_nat t j v
  end.

Definition store (s : list byte) (i : Z) (v : byte) : list byte :=
  store_nat s (Z.to_nat i) v.

(** The builtin [copy(dst, src)]: the first [min(len(dst), len(src))]
    elements of [dst] are overwritten, the rest of [dst] is kept. *)
Definition copy (dst src : list byte) : list byte :=
  let n := Nat.min (length dst) (length src) in
  firstn n src ++ skipn n dst.

Declare Scope go_scope.
Delimit Scope go_scope with go.
Notation "s .[ i ]" := (index s i) (at level 1, left associativity,
  format "s .[ i ]") : go_scope.
Notation "x >> n" := (Z.shiftr x n) (at level 30, no associativity) : go_scope.
Notation "x << n" := (Z.shiftl x n) (at level 30, no associativity) : go_scope.
Notation "x .& y" := (Z.land x y) (at level 32, left associativity) : go_scope.
Notation "x .| y" := (Z.lor x y) (at level 34, left associativity) : go_scope.
Notation "x .^ y" := (Z.lxor x y) (at level 33, left associativity) : go_scope.
Local Open Scope go_scope.

(** ** The standard library functions [Parse] calls *)

(** [strings.ReplaceAll(s, old, new)] for a one byte [old]: every occurrence
    of the byte is replaced by [new]. *)
Definition ReplaceAll (s : list byte) (old : byte) (new : list byte) : list byte :=
  flat_map (fun c => if Byte.eqb c old then new else [c]) s.

Inductive error : Type :=
| ErrExpectedLength (got : Z)      (* fmt.Errorf("Expected length 36, got %d", len(s)) *)
| ErrInvalidFormat                 (* errors.New("invalid UUID format") *)
| InvalidByteError (b : byte)      (* hex.InvalidByteError *)
| ErrLength.                       (* hex.ErrLength *)

(** [encoding/hex]: the value of one hexadecimal digit, of either case. *)
Definition fromHexChar (c : byte) : option Z :=
  if (u8 "0" <=? c) && (c <=? u8 "9") then Some (c - u8 "0")
  else if (u8 "a" <=? c) && (c <=? u8 "f") then Some (c - u8 "a" + 10)
  else if (u8 "A" <=? c) && (c <=? u8 "F") then Some (c - u8 "A" + 10)
  else None.

(** [hex.Decode]: digits are consumed in pairs, the first digit of a pair is
    the high nibble; the first byte that is no digit stops the decoding with
    [InvalidByteError], and a trailing single digit gives [ErrLength].  The
    bytes decoded before the error are returned with it. *)
Fixpoint DecodeString (s : list byte) : list byte * option error :=
  match s with
  | [] => ([], None)
  | [p] =>
      match fromHexChar p with
      | None => ([], Some (InvalidByteError p))
      | Some _ => ([], Some ErrLength)
      end
  | p :: q :: rest =>
      match fromHexChar p, fromHexChar q with
      | None, _ => ([], Some (InvalidByteError p))
      | Some _, None => ([], Some (InvalidByteError q))
      | Some a, Some b =>
          let (dec, err) := DecodeString rest in
          (uint8 ((a << 4) .| b) :: dec, err)
      end
  end.

(** ** [type UUID [16]byte] *)

Definition UUID : Type := list byte.

Definition wf_uuid (u : UUID) : Prop := length u = 16%nat.

(** [var uuid UUID]: the zero value of the array. *)
Definition zeroUUID : UUID := repeat Byte.x00 16.

Definition hyphen : byte := "-"%byte.

(** [func Parse(s string) (UUID, error)] *)
Definition Parse (s : list byte) : UUID * option error :=
  let uuid := zeroUUID in
  if negb (len s =? 36) then
    (uuid, Some (ErrExpectedLength (len s)))
  else if negb (Byte.eqb s.[8] hyphen) || negb (Byte.eqb s.[13] hyphen)
          || negb (Byte.eqb s.[18] hyphen) || negb (Byte.eqb s.[23] hyphen) then
    (uuid, Some ErrInvalidFormat)
  else
    let s := ReplaceAll s hyphen [] in
    let (dec, err) := DecodeString s in
    match err with
    | Some e => (uuid, Some e)
    | None => (copy uuid dec, None)
    end.

(** The result of a call that may panic.  The panic value of [MustParse] is
    the string [uuid: Parse(] + s + [): ] + err.Error(); it is kept here as
    its two variable parts. *)
Inductive outcome (A : Type) : Type :=
| Returns (a : A)
| Panics (s : list byte) (err : error).
Arguments Returns {A} a.
Arguments Panics {A} s err.

(** [func MustParse(s string) UUID] *)
Definition MustParse (s : list byte) : outcome UUID :=
  let (uuid, err) := Parse s in
  match err with
  | Some e => Panics s e
  | None => Returns uuid
  end.

(** [const hextable = "0123456789abcdef"] *)
Definition hextable : list byte := str "0123456789abcdef".

(** [func (uuid UUID) String() string] *)
Definition String (uuid : UUID) : list byte :=
  let formatted := [
    hextable.[uuid.[0] >> 4]; hextable.[uuid.[0] .& 0x0f];
    hextable.[uuid.[1] >> 4]; hextable.[uuid.[1] .& 0x0f];
    hextable.[uuid.[2] >> 4]; hextable.[uuid.[2] .& 0x0f];
    hextable.[uuid.[3] >> 4]; hextable.[uuid.[3] .& 0x0f];
    hyphen;
    hextable.[uuid.[4] >> 4]; hextable.[uuid.[4] .& 0x0f];
    hextable.[uuid.[5] >> 4]; hextable.[uuid.[5] .& 0x0f];
    hyphen;
    hextable.[uuid.[6] >> 4]; hextable.[uuid.[6] .& 0x0f];
    hextable.[uuid.[7] >> 4]; hextable.[uuid.[7] .& 0x0f];
    hyphen;
    hextable.[uuid.[8] >> 4]; hextable.[uuid.[8] .& 0x0f];
    hextable.[uuid.[9] >> 4]; hextable.[uuid.[9] .& 0x0f];
    hyphen;
    hextable.[uuid.[10] >> 4]; hextable.[uuid.[10] .& 0x0f];
    hextable.[uuid.[11] >> 4]; hextable.[uuid.[11] .& 0x0f];
    hextable.[uuid.[12] >> 4]; hextable.[uuid.[12] .& 0x0f];
    hextable.[uuid.[13] >> 4]; hextable.[uuid.[13] .& 0x0f];
    hextable.[uuid.[14] >> 4]; hextable.[uuid.[14] .& 0x0f];
    hextable.[uuid.[15] >> 4]; hextable.[uuid.[15] .& 0x0f]
  ] in
  formatted.

(** [func (uuid UUID) AppendFormatted(buf []byte) []byte].  The array
    literal is written out a second time in the source, and so it is here.
    The builtin [append] returns a slice that holds the elements of [buf]
    followed by the appended ones. *)
Definition AppendFormatted (uuid : UUID) (buf : list byte) : list byte :=
  let formatted := [
    hextable.[uuid.[0] >> 4]; hextable.[uuid.[0] .& 0x0f];
    hextable.[uuid.[1] >> 4]; hextable.[uuid.[1] .& 0x0f];
    hextable.[uuid.[2] >> 4]; hextable.[uuid.[2] .& 0x0f];
    hextable.[uuid.[3] >> 4]; hextable.[uuid.[3] .& 0x0f];
    hyphen;
    hextable.[uuid.[4] >> 4]; hextable.[uuid.[4] .& 0x0f];
    hextable.[uuid.[5] >> 4]; hextable.[uuid.[5] .& 0x0f];
    hyphen;
    hextable.[uuid.[6] >> 4]; hextable.[uuid.[6] .& 0x0f];
    hextable.[uuid.[7] >> 4]; hextable.[uuid.[7] .& 0x0f];
    hyphen;
    hextable.[uuid.[8] >> 4]; hextable.[uuid.[8] .& 0x0f];
    hextable.[uuid.[9] >> 4]; hextable.[uuid.[9] .& 0x0f];
    hyphen;
    hextable.[uuid.[10] >> 4]; hextable.[uuid.[10] .& 0x0f];
    hextable.[uuid.[11] >> 4]; hextable.[uuid.[11] .& 0x0f];
    hextable.[uuid.[12] >> 4]; hextable.[uuid.[12] .& 0x0f];
    hextable.[uuid.[13] >> 4]; hextable.[uuid.[13] .& 0x0f];
    hextable.[uuid.[14] >> 4]; hextable.[uuid.[14] .& 0x0f];
    hextable.[uuid.[15] >> 4]; hextable.[uuid.[15] .& 0x0f]
  ] in
  buf ++ formatted.

(** ** The digests of [crypto/md5] and [crypto/sha1]

    Both packages belong to the Go standard library.  Their digests are the
    functions of RFC 1321 and of RFC 3174 (FIPS 180), written here over
    32 bit words held in [Z]. *)

(** [uint32] arithmetic wraps modulo 2^32. *)
Definition uint32 (z : Z) : Z := z mod 2 ^ 32.

(** [bits.RotateLeft32] *)
Definition rotl (x n : Z) : Z := uint32 ((x << n) .| (x >> (32 - n))).

(** The [k] low bytes of [z], most significant first and least significant
    first. *)
Definition be_bytes (k : nat) (z : Z) : list byte :=
  map (fun i => uint8 (z >> (8 * Z.of_nat i))) (rev (seq 0 k)).

Definition le_bytes (k : nat) (z : Z) : list byte :=
  map (fun i => uint8 (z >> (8 * Z.of_nat i))) (seq 0 k).

Fixpoint be_words (l : list byte) : list Z :=
  match l with
  | a :: b :: c :: d :: t => ((a << 24) .| (b << 16) .| (c << 8) .| d) :: be_words t
  | _ => []
  end.

Fixpoint le_words (l : list byte) : list Z :=
  match l with
  | a :: b :: c :: d :: t => (a .| (b << 8) .| (c << 16) .| (d << 24)) :: le_words t
  | _ => []
  end.

(** The message followed by the byte 0x80 and by zero bytes up to 56 modulo
    64; the length field (8 bytes) is added by each digest in its own byte
    order. *)
Definition pad80 (data : list byte) : list byte :=
  data ++ [Byte.x80] ++ repeat Byte.x00 ((119 - length data mod 64) mod 64).

(** The first [n] blocks of 64 bytes. *)
Fixpoint blocks (n : nat) (l : list byte) : list (list byte) :=
  match n with
  | O => []
  | S k => firstn 64 l :: blocks k (skipn 64 l)
  end.

Definition word (w : list Z) (i : nat) : Z := nth i w 0.

Module sha1.

Definition Size : Z := 20.

Definition init : Z * Z * Z * Z * Z :=
  (0x67452301, 0xEFCDAB89, 0x98BADCFE, 0x10325476, 0xC3D2E1F0).

Definition f (t : nat) (b c d : Z) : Z :=
  if (t <? 20)%nat then (b .& c) .| (Z.lnot b .& d)
  else if (t <? 40)%nat then b .^ c .^ d
  else if (t <? 60)%nat then ((b .| c) .& d) .| (b .& c)
  else b .^ c .^ d.

Definition K (t : nat) : Z :=
  if (t <? 20)%nat then 0x5A827999
  else if (t <? 40)%nat then 0x6ED9EBA1
  else if (t <? 60)%nat then 0x8F1BBCDC
  else 0xCA62C1D6.

(** One of the 80 steps.  [w] holds the sixteen words W(t) .. W(t+15) of
    the message schedule. *)
Definition step (st : list Z * (Z * Z * Z * Z * Z)) (t : nat)
  : list Z * (Z * Z * Z * Z * Z) :=
  let '(w, (a, b, c, d, e)) := st in
  let tmp := uint32 (rotl a 5 + f t b c d + e + word w 0 + K t) in
  let next := rotl (word w 13 .^ word w 8 .^ word w 2 .^ word w 0) 1 in
  (tl w ++ [next], (tmp, a, rotl b 30, c, d)).

Definition block (h : Z * Z * Z * Z * Z) (p : list byte) : Z * Z * Z * Z * Z :=
  let '(h0, h1, h2, h3, h4) := h in
  let '(_, (a, b, c, d, e)) := fold_left step (seq 0 80) (be_words p, h) in
  (uint32 (h0 + a), uint32 (h1 + b), uint32 (h2 + c), uint32 (h3 + d),
   uint32 (h4 + e)).

(** The 20 byte SHA-1 digest of [data]. *)
Definition checkSum (data : list byte) : list byte :=
  let padded := pad80 data ++ be_bytes 8 (8 * len data) in
  let '(h0, h1, h2, h3, h4) :=
    fold_left block (blocks (length padded / 64) padded) init in
  be_bytes 4 h0 ++ be_bytes 4 h1 ++ be_bytes 4 h2 ++ be_bytes 4 h3
    ++ be_bytes 4 h4.

(** [*sha1.digest], seen through [hash.Hash]: the bytes written since the
    last reset. *)
Record digest : Type := { written : list byte }.

Definition New : digest := {| written := [] |}.

End sha1.

Module md5.

Definition Size : Z := 16.

Definition init : Z * Z * Z * Z :=
  (0x67452301, 0xefcdab89, 0x98badcfe, 0x10325476).

Definition shifts : list Z :=
  [7; 12; 17; 22; 7; 12; 17; 22; 7; 12; 17; 22; 7; 12; 17; 22;
   5; 9; 14; 20; 5; 9; 14; 20; 5; 9; 14; 20; 5; 9; 14; 20;
   4; 11; 16; 23; 4; 11; 16; 23; 4; 11; 16; 23; 4; 11; 16; 23;
   6; 10; 15; 21; 6; 10; 15; 21; 6; 10; 15; 21; 6; 10; 15; 21].

Definition K : list Z :=
  [0xd76aa478; 0xe8c7b756; 0x242070db; 0xc1bdceee;
   0xf57c0faf; 0x4787c62a; 0xa8304613; 0xfd469501;
   0x698098d8; 0x8b44f7af; 0xffff5bb1; 0x895cd7be;
   0x6b901122; 0xfd987193; 0xa679438e; 0x49b40821;
   0xf61e2562; 0xc040b340; 0x265e5a51; 0xe9b6c7aa;
   0xd62f105d; 0x02441453; 0xd8a1e681; 0xe7d3fbc8;
   0x21e1cde6; 0xc33707d6; 0xf4d50d87; 0x455a14ed;
   0xa9e3e905; 0xfcefa3f8; 0x676f02d9; 0x8d2a4c8a;
   0xfffa3942; 0x8771f681; 0x6d9d6122; 0xfde5380c;
   0xa4beea44; 0x4bdecfa9; 0xf6bb4b60; 0xbebfbc70;
   0x289b7ec6; 0xeaa127fa; 0xd4ef3085; 0x04881d05;
   0xd9d4d039; 0xe6db99e5; 0x1fa27cf8; 0xc4ac5665;
   0xf4292244; 0x432aff97; 0xab9423a7; 0xfc93a039;
   0x655b59c3; 0x8f0ccc92; 0xffeff47d; 0x85845dd1;
   0x6fa87e4f; 0xfe2ce6e0; 0xa3014314; 0x4e0811a1;
   0xf7537e82; 0xbd3af235; 0x2ad7d2bb; 0xeb86d391].

Definition f (i : nat) (b c d : Z) : Z :=
  if (i <? 16)%nat then (b .& c) .| (Z.lnot b .& d)
  else if (i <? 32)%nat then (d .& b) .| (Z.lnot d .& c)
  else if (i <? 48)%nat then b .^ c .^ d
  else c .^ (b .| Z.lnot d).

Definition g (i : nat) : nat :=
  if (i <? 16)%nat then i
  else if (i <? 32)%nat then (5 * i + 1) mod 16
  else if (i <? 48)%nat then (3 * i + 5) mod 16
  else (7 * i) mod 16.

Definition step (m : list Z) (st : Z * Z * Z * Z) (i : nat) : Z * Z * Z * Z :=
  let '(a, b, c, d) := st in
  let x := uint32 (f i b c d + a + word K i + word m (g i)) in
  (d, uint32 (b + rotl x (word shifts i)), b, c).

Definition block (h : Z * Z * Z * Z) (p : list byte) : Z * Z * Z * Z :=
  let '(h0, h1, h2, h3) := h in
  let '(a, b, c, d) := fold_left (step (le_words p)) (seq 0 64) h in
  (uint32 (h0 + a), uint32 (h1 + b), uint32 (h2 + c), uint32 (h3 + d)).

(** The 16 byte MD5 digest of [data]. *)
Definition checkSum (data : list byte) : list byte :=
  let padded := pad80 data ++ le_bytes 8 (8 * len data) in
  let '(h0, h1, h2, h3) :=
    fold_left block (blocks (length padded / 64) padded) init in
  le_bytes 4 h0 ++ le_bytes 4 h1 ++ le_bytes 4 h2 ++ le_bytes 4 h3.

(** [*md5.digest], seen through [hash.Hash]: the bytes written since the
    last reset. *)
Record digest : Type := { written : list byte }.

Definition New : digest := {| written := [] |}.

End md5.

(** ** [hash.Hash] and the generator *)

(** The methods of the interface [hash.Hash] that [Generate] calls.
    [Write] adds data to the running hash, [Sum] appends the current hash
    to its argument and leaves the state alone, [Reset] goes back to the
    initial state. *)
Class Hash (D : Type) : Type := {
  Reset : D -> D;
  Write : D -> list byte -> D;
  Sum : D -> list byte -> list byte;
}.

#[export] Instance md5_Hash : Hash md5.digest := {|
  Reset := fun _ => md5.New;
  Write := fun d p => {| md5.written := md5.written d ++ p |};
  Sum := fun d b => b ++ md5.checkSum (md5.written d);
|}.

#[export] Instance sha1_Hash : Hash sha1.digest := {|
  Reset := fun _ => sha1.New;
  Write := fun d p => {| sha1.written := sha1.written d ++ p |};
  Sum := fun d b => b ++ sha1.checkSum (sha1.written d);
|}.

(** A value of interface type: a dynamic type, its methods and a value. *)
Record hash_Hash : Type := iface {
  dyn : Type;
  methods : Hash dyn;
  value : dyn;
}.
Arguments iface dyn {methods} value.

Definition h_Reset (x : hash_Hash) : hash_Hash :=
  @iface (dyn x) (methods x) (@Reset _ (methods x) (value x)).

Definition h_Write (x : hash_Hash) (p : list byte) : hash_Hash :=
  @iface (dyn x) (methods x) (@Write _ (methods x) (value x) p).

Definition h_Sum (x : hash_Hash) (b : list byte) : list byte :=
  @Sum _ (methods x) (value x) b.

(** [type Generator struct] *)
Record Generator : Type := {
  h : hash_Hash;
  namespace : list byte;
  buf : list byte;
  version : Z;
}.

(** [make([]byte, n)] *)
Definition make (n : nat) : list byte := repeat Byte.x00 n.

(** [func NewMD5Gen(namespace UUID) *Generator] *)
Definition NewMD5Gen (namespace : UUID) : Generator :=
  {| h := iface md5.digest md5.New; namespace := namespace;
     buf := make 16; version := 3 |}.

(** [func NewSHA1Gen(namespace UUID) *Generator] *)
Definition NewSHA1Gen (namespace : UUID) : Generator :=
  {| h := iface sha1.digest sha1.New; namespace := namespace;
     buf := make 20; version := 5 |}.

(** [func (hg *Generator) Generate(target *UUID, input []byte)]: the
    generator and the target after the call.  [hg.buf[0:0]] is the empty
    slice over the array of [hg.buf], so that [Sum] returns the digest alone,
    in that array. *)
Definition Generate (hg : Generator) (target : UUID) (input : list byte)
  : Generator * UUID :=
  let h := h_Reset (h hg) in
  let h := h_Write h (namespace hg) in
  let h := h_Write h input in
  let buf := h_Sum h (firstn 0 (buf hg)) in
  let target := copy target buf in
  let target :=
    store target 6 (uint8 ((target.[6] .& 0x0f) .| uint8 ((version hg .& 0xf) << 4))) in
  let target := store target 8 (uint8 ((target.[8] .& 0x3f) .| 0x80)) in
  ({| h := h; namespace := namespace hg; buf := buf; version := version hg |},
   target).

(** A generator after a sequence of calls, each with its own target and
    input. *)
Fixpoint reuse (hg : Generator) (calls : list (UUID * list byte)) : Generator :=
  match calls with
  | [] => hg
  | (target, input) :: rest => reuse (fst (Generate hg target input)) rest
  end.

(** ** Vocabulary of the specification *)

(** A hexadecimal digit of either case. *)
Definition isHexDigit (c : byte) : bool :=
  existsb (Byte.eqb c) (str "0123456789abcdefABCDEF").

Definition isSeparator (i : Z) : bool :=
  (i =? 8) || (i =? 13) || (i =? 18) || (i =? 23).

(** The canonical text form: 36 bytes, a hyphen at each of the positions
    8, 13, 18 and 23 and a hexadecimal digit at each of the other 32. *)
Definition canonical (s : list byte) : bool :=
  (len s =? 36)
  && forallb (fun i => if isSeparator i then Byte.eqb s.[i] hyphen
                       else isHexDigit s.[i])
       (map Z.of_nat (seq 0 36)).

(** The lower case form of an ASCII string, as [strings.ToLower] gives it. *)
Definition toLower (c : byte) : byte :=
  if (u8 "A" <=? c) && (c <=? u8 "Z") then uint8 (c + (u8 "a" - u8 "A")) else c.

Definition ToLower (s : list byte) : list byte := map toLower s.

Definition isLower (s : list byte) : bool :=
  forallb (fun c : byte => negb ((u8 "A" <=? c) && (c <=? u8 "Z"))) s.

(** The two digits of one byte and the 32 digits of a UUID, in the order in
    which [String] lays them out. *)
Definition encode_byte (b : byte) : list byte :=
  [hextable.[b >> 4]; hextable.[b .& 0x0f]].

Definition hexdigits (u : list byte) : list byte := flat_map encode_byte u.

(** The 8-4-4-4-12 layout of 32 digits. *)
Definition grouped (d : list byte) : list byte :=
  firstn 8 d ++ hyphen :: firstn 4 (skipn 8 d) ++ hyphen ::
  firstn 4 (skipn 12 d) ++ hyphen :: firstn 4 (skipn 16 d) ++ hyphen ::
  skipn 20 d.

(** A list of hexadecimal digits. *)
Definition digits (d : list byte) : Prop := Forall (fun c => isHexDigit c = true) d.

(** The digits of a string in the 8-4-4-4-12 layout. *)
Definition ungroup (s : list byte) : list byte :=
  firstn 8 s ++ firstn 4 (skipn 9 s) ++ firstn 4 (skipn 14 s)
    ++ firstn 4 (skipn 19 s) ++ skipn 24 s.

(** The name based UUID of RFC 4122 for a digest and a version: the first
    16 bytes of the digest of the namespace followed by the name, with
    the version in the high nibble of byte 6 and the variant [10] in the
    two high bits of byte 8. *)
Definition name_based (digest : list byte -> list byte) (v : Z)
    (ns input : list byte) (t : UUID) : Prop :=
  let d := digest (ns ++ input) in
  wf_uuid t
  /\ (forall i, 0 <= i < 16 -> i <> 6 -> i <> 8 -> t.[i] = d.[i])
  /\ t.[6] >> 4 = v /\ t.[6] .& 0x0f = d.[6] .& 0x0f
  /\ t.[8] >> 6 = 2 /\ t.[8] .& 0x3f = d.[8] .& 0x3f.

(** The dynamic type of the hash of a generator. *)
Inductive holds_md5 : hash_Hash -> Prop :=
| holds_md5_intro (d : md5.digest) : holds_md5 (iface md5.digest d).

Inductive holds_sha1 : hash_Hash -> Prop :=
| holds_sha1_intro (d : sha1.digest) : holds_sha1 (iface sha1.digest d).

(** What a call of [Generate] keeps of a generator: the dynamic type of its
    hash, its namespace and its version. *)
Definition same_kind (g g' : Generator) : Prop :=
  (holds_md5 (h g) -> holds_md5 (h g'))
  /\ (holds_sha1 (h g) -> holds_sha1 (h g'))
  /\ namespace g' = namespace g /\ version g' = version g.

(** The four separators of the text form are in place. *)
Definition separators (s : list byte) : bool :=
  Byte.eqb s.[8] hyphen && Byte.eqb s.[13] hyphen
  && Byte.eqb s.[18] hyphen && Byte.eqb s.[23] hyphen.

(** A byte that is neither a hyphen nor a hexadecimal digit. *)
Definition stray (c : byte) : bool :=
  negb (Byte.eqb c hyphen) && negb (isHexDigit c).

(** The number of hyphens of a string. *)
Definition hyphens (s : list byte) : nat :=
  count_occ Byte.byte_eq_dec s hyphen.

(** The position, in the text form, of the first of the two digits of byte
    [k] of a UUID. *)
Definition digit_position (k : Z) : Z :=
  2 * k + (if k <? 4 then 0 else if k <? 6 then 1 else if k <? 8 then 2
           else if k <? 10 then 3 else 4).

(** ** Concrete inputs

    A namespace, a canonical string in mixed case, a string with two stray
    hyphens and a string with a letter that is no digit. *)
Definition ns_example : UUID :=
  fst (Parse (str "15588635-a45e-4867-aadb-dbf0385ade95")).

Definition mixed_case_example : list byte :=
  str "15588635-A45E-4867-AADB-dbf0385ade95".

Definition stray_hyphens_example : list byte :=
  str "--345678-1234-1234-1234-123456789abc".

Definition bad_digit_example : list byte :=
  str "15588635-a45e-4867-aadb-dbf0385adeg5".

(** * Properties *)

(** ** Bytes and digits *)

Lemma decode_encode_byte (b : byte) :
  fromHexChar hextable.[b >> 4] = Some (b >> 4)
  /\ fromHexChar hextable.[b .& 0x0f] = Some (b .& 0x0f)
  /\ uint8 (((b >> 4) << 4) .| (b .& 0x0f)) = b.
Proof. destruct b; vm_compute; auto. Qed.

Lemma encode_byte_digits (b : byte) :
  isHexDigit hextable.[b >> 4] = true /\ isHexDigit hextable.[b .& 0x0f] = true.
Proof. destruct b; vm_compute; auto. Qed.

Lemma hex_not_hyphen (c : byte) :
  isHexDigit c = true -> Byte.eqb c hyphen = false.
Proof. destruct c; intros H; vm_compute in H |- *; congruence. Qed.

Lemma hex_digit_value (c : byte) :
  isHexDigit c = true ->
  exists a, fromHexChar c = Some a /\ 0 <= a < 16 /\ hextable.[a] = toLower c.
Proof.
  destruct c; intros H; try (vm_compute in H; discriminate H);
    (eexists; split;
      [reflexivity | split; [vm_compute; split; [discriminate | reflexivity] | reflexivity]]).
Qed.

Lemma hex_digit_lower (c : byte) :
  isHexDigit c = true ->
  negb ((u8 "A" <=? c) && (c <=? u8 "Z")) = true -> toLower c = c.
Proof.
  unfold toLower. intros _ H.
  destruct ((u8 "A" <=? c) && (c <=? u8 "Z")); [discriminate H | reflexivity].
Qed.

Lemma nibbles_byte (a b : Z) :
  0 <= a < 16 -> 0 <= b < 16 ->
  encode_byte (uint8 ((a << 4) .| b)) = [hextable.[a]; hextable.[b]].
Proof.
  intros Ha Hb.
  rewrite <- (Z2Nat.id a), <- (Z2Nat.id b) by lia.
  assert (Ha' : (Z.to_nat a < 16)%nat) by lia.
  assert (Hb' : (Z.to_nat b < 16)%nat) by lia.
  revert Ha' Hb'. generalize (Z.to_nat a) (Z.to_nat b). clear.
  intros n m Hn Hm.
  do 16 (destruct n as [|n]; [do 16 (destruct m as [|m]; [reflexivity|]); lia|]).
  lia.
Qed.

Lemma hex_pair (p q : byte) :
  isHexDigit p = true -> isHexDigit q = true ->
  exists a b, fromHexChar p = Some a /\ fromHexChar q = Some b
              /\ encode_byte (uint8 ((a << 4) .| b)) = [toLower p; toLower q].
Proof.
  intros Hp Hq.
  destruct (hex_digit_value p Hp) as (a & Ea & Ra & La).
  destruct (hex_digit_value q Hq) as (b & Eb & Rb & Lb).
  exists a, b. rewrite <- La, <- Lb. auto using nibbles_byte.
Qed.

(** ** Lists of digits *)

Lemma pair_ind (P : list byte -> Prop) :
  P [] -> (forall a, P [a]) -> (forall a b l, P l -> P (a :: b :: l)) ->
  forall l, P l.
Proof.
  intros H0 H1 H2 l.
  enough (P l /\ forall a, P (a :: l)) by tauto.
  induction l as [|x l [IH1 IH2]]; split; auto.
Qed.

Lemma digits_firstn n d : digits d -> digits (firstn n d).
Proof.
  unfold digits. intros H. rewrite <- (firstn_skipn n d) in H.
  apply Forall_app in H. tauto.
Qed.

Lemma digits_skipn n d : digits d -> digits (skipn n d).
Proof.
  unfold digits. intros H. rewrite <- (firstn_skipn n d) in H.
  apply Forall_app in H. tauto.
Qed.

Lemma digits_hexdigits u : digits (hexdigits u).
Proof.
  induction u as [|b u IH]; [constructor|].
  destruct (encode_byte_digits b). repeat constructor; assumption.
Qed.

Lemma length_hexdigits u : length (hexdigits u) = (2 * length u)%nat.
Proof. induction u; simpl; lia. Qed.

Lemma ReplaceAll_app s t :
  ReplaceAll (s ++ t) hyphen [] = ReplaceAll s hyphen [] ++ ReplaceAll t hyphen [].
Proof. apply flat_map_app. Qed.

Lemma ReplaceAll_hyphen t :
  ReplaceAll (hyphen :: t) hyphen [] = ReplaceAll t hyphen [].
Proof. reflexivity. Qed.

Lemma ReplaceAll_digits d : digits d -> ReplaceAll d hyphen [] = d.
Proof.
  induction 1 as [|c d Hc _ IH]; [reflexivity|].
  unfold ReplaceAll in *. simpl. rewrite (hex_not_hyphen c Hc), IH. reflexivity.
Qed.

Lemma regroup (d : list byte) :
  firstn 8 d ++ firstn 4 (skipn 8 d) ++ firstn 4 (skipn 12 d)
    ++ firstn 4 (skipn 16 d) ++ skipn 20 d = d.
Proof.
  change 20%nat with (4 + 16)%nat. rewrite <- skipn_skipn, firstn_skipn.
  change 16%nat with (4 + 12)%nat. rewrite <- skipn_skipn, firstn_skipn.
  change 12%nat with (4 + 8)%nat. rewrite <- skipn_skipn, firstn_skipn.
  apply firstn_skipn.
Qed.

(** Removing the hyphens of the layout gives the digits back. *)
Lemma ReplaceAll_grouped d : digits d -> ReplaceAll (grouped d) hyphen [] = d.
Proof.
  intros H. unfold grouped.
  repeat (rewrite ReplaceAll_app || rewrite ReplaceAll_hyphen
          || rewrite <- app_comm_cons).
  rewrite !ReplaceAll_digits by auto using digits_firstn, digits_skipn.
  apply regroup.
Qed.

Lemma grouped_shape d :
  length d = 32%nat ->
  len (grouped d) = 36 /\ (grouped d).[8] = hyphen /\ (grouped d).[13] = hyphen
  /\ (grouped d).[18] = hyphen /\ (grouped d).[23] = hyphen.
Proof.
  intros H.
  do 32 (destruct d as [|? d]; [discriminate H|]).
  destruct d; [|discriminate H].
  repeat split; reflexivity.
Qed.

Lemma ToLower_grouped d : ToLower (grouped d) = grouped (ToLower d).
Proof.
  unfold ToLower, grouped.
  repeat (rewrite map_app || rewrite map_cons).
  rewrite !skipn_map, !firstn_map. reflexivity.
Qed.

(** ** [hex.DecodeString] *)

Lemma DecodeString_hexdigits u : DecodeString (hexdigits u) = (u, None).
Proof.
  induction u as [|b u IH]; [reflexivity|].
  destruct (decode_encode_byte b) as (Hhi & Hlo & Hb).
  change (hexdigits (b :: u))
    with (hextable.[b >> 4] :: hextable.[b .& 0x0f] :: hexdigits u).
  cbn [DecodeString]. rewrite Hhi, Hlo, IH, Hb. reflexivity.
Qed.

Lemma DecodeString_digits d :
  digits d -> Nat.even (length d) = true ->
  exists u, DecodeString d = (u, None) /\ hexdigits u = ToLower d.
Proof.
  induction d as [| a | p q d IH] using pair_ind; intros Hd Hev.
  - exists []. auto.
  - discriminate Hev.
  - inversion Hd as [|? ? Hp Hd']; subst. inversion Hd' as [|? ? Hq Hd'']; subst.
    destruct (IH Hd'' Hev) as (u & Eu & Lu).
    destruct (hex_pair p q Hp Hq) as (a & b & Ea & Eb & Eab).
    exists (uint8 ((a << 4) .| b) :: u). split.
    + cbn [DecodeString]. rewrite Ea, Eb, Eu. reflexivity.
    + change (hexdigits (uint8 ((a << 4) .| b) :: u))
        with (encode_byte (uint8 ((a << 4) .| b)) ++ hexdigits u).
      rewrite Eab, Lu. reflexivity.
Qed.

(** ** [Parse] and [String] on the 8-4-4-4-12 layout *)

Lemma copy_zero (u : list byte) : length u = 16%nat -> copy zeroUUID u = u.
Proof.
  intros H. unfold copy. change (length zeroUUID) with 16%nat.
  rewrite H, firstn_all2, skipn_all2 by (rewrite ?H; reflexivity || lia).
  apply app_nil_r.
Qed.

Lemma Parse_grouped d :
  length d = 32%nat -> digits d ->
  Parse (grouped d) =
    let (dec, err) := DecodeString d in
    match err with
    | Some e => (zeroUUID, Some e)
    | None => (copy zeroUUID dec, None)
    end.
Proof.
  intros Hlen Hd. unfold Parse.
  destruct (grouped_shape d Hlen) as (-> & -> & -> & -> & ->).
  rewrite (ReplaceAll_grouped d Hd). reflexivity.
Qed.

Lemma String_grouped u : wf_uuid u -> String u = grouped (hexdigits u).
Proof.
  unfold wf_uuid. intros H.
  do 16 (destruct u as [|? u]; [discriminate H|]).
  destruct u; [|discriminate H].
  reflexivity.
Qed.

(** What [canonical] says of position [i] of an explicit list. *)
Ltac position H i :=
  let Hi := fresh "Hpos" in
  assert (Hi := H (Z.of_nat i)
                  (in_map Z.of_nat _ _ (proj2 (in_seq 36 0 i) ltac:(lia))));
  let b := eval vm_compute in (isSeparator (Z.of_nat i)) in
  change (isSeparator (Z.of_nat i)) with b in Hi;
  unfold index in Hi; rewrite Nat2Z.id in Hi; cbn [nth] in Hi;
  try apply Byte.byte_dec_bl in Hi.

Ltac positions H i :=
  lazymatch i with
  | O => position H O
  | S ?j => position H i; positions H j
  end.

Lemma canonical_grouped s :
  canonical s = true ->
  s = grouped (ungroup s) /\ length (ungroup s) = 32%nat /\ digits (ungroup s).
Proof.
  unfold canonical, len. intros H. apply andb_prop in H. destruct H as [Hlen H].
  apply Z.eqb_eq in Hlen.
  assert (Hl : length s = 36%nat) by lia. clear Hlen.
  do 36 (destruct s as [|? s]; [discriminate Hl|]).
  destruct s; [|discriminate Hl]. clear Hl.
  rewrite forallb_forall in H.
  positions H 35%nat. clear H. subst.
  split; [reflexivity | split; [reflexivity | repeat constructor; assumption]].
Qed.

Lemma ToLower_isLower s : isLower s = true -> ToLower s = s.
Proof.
  induction s as [|c s IH]; [reflexivity|].
  cbn [isLower forallb ToLower map]. intros H.
  apply andb_prop in H. destruct H as [Hc Hs].
  unfold toLower at 1.
  destruct ((u8 "A" <=? c) && (c <=? u8 "Z")); [discriminate Hc|].
  f_equal. apply IH, Hs.
Qed.

(** ** Arrays *)

Lemma length_store s i v : length (store s i v) = length s.
Proof.
  unfold store. generalize (Z.to_nat i) as n.
  induction s as [|x s IH]; intros [|n]; simpl; auto.
Qed.

Lemma index_store_same s i v :
  0 <= i < len s -> (store s i v).[i] = v.
Proof.
  unfold store, index, len. intros H.
  assert (Hn : (Z.to_nat i < length s)%nat) by lia.
  revert Hn. generalize (Z.to_nat i) as n. clear.
  induction s as [|x s IH]; intros [|n] Hn; simpl in *; try lia; auto.
  apply IH. lia.
Qed.

Lemma index_store_other s i j v :
  0 <= i -> 0 <= j -> i <> j -> (store s i v).[j] = s.[j].
Proof.
  unfold store, index. intros Hi Hj Hij.
  assert (Hn : Z.to_nat i <> Z.to_nat j) by lia.
  revert Hn. generalize (Z.to_nat i) as n, (Z.to_nat j) as m. clear.
  induction s as [|x s IH]; intros [|n] [|m] Hn; simpl; auto; congruence.
Qed.

Lemma index_firstn (s : list byte) (n : nat) (i : Z) :
  0 <= i < Z.of_nat n -> (firstn n s).[i] = s.[i].
Proof.
  unfold index. intros H. rewrite nth_firstn.
  destruct (Nat.ltb_spec (Z.to_nat i) n); [reflexivity | lia].
Qed.

Lemma copy_over (dst src : list byte) :
  (length dst <= length src)%nat -> copy dst src = firstn (length dst) src.
Proof.
  intros H. unfold copy. rewrite Nat.min_l by exact H.
  rewrite skipn_all. apply app_nil_r.
Qed.

(** ** The digests have a fixed size *)

Lemma length_be_bytes k z : length (be_bytes k z) = k.
Proof. unfold be_bytes. now rewrite length_map, length_rev, length_seq. Qed.

Lemma length_le_bytes k z : length (le_bytes k z) = k.
Proof. unfold le_bytes. now rewrite length_map, length_seq. Qed.

Lemma md5_size data : len (md5.checkSum data) = md5.Size.
Proof.
  unfold md5.checkSum, len.
  destruct (fold_left md5.block _ md5.init) as [[[h0 h1] h2] h3].
  now rewrite !length_app, !length_le_bytes.
Qed.

Lemma sha1_size data : len (sha1.checkSum data) = sha1.Size.
Proof.
  unfold sha1.checkSum, len.
  destruct (fold_left sha1.block _ sha1.init) as [[[[h0 h1] h2] h3] h4].
  now rewrite !length_app, !length_be_bytes.
Qed.

(** ** The version and variant fields *)

Lemma version_bits (b : byte) (v : Z) :
  v = 3 \/ v = 5 ->
  let x := uint8 ((b .& 0x0f) .| uint8 ((v .& 0xf) << 4)) in
  x >> 4 = v /\ x .& 0x0f = b .& 0x0f.
Proof. intros [-> | ->]; destruct b; vm_compute; auto. Qed.

Lemma variant_bits (b : byte) :
  let y := uint8 ((b .& 0x3f) .| 0x80) in
  y >> 6 = 2 /\ y .& 0x3f = b .& 0x3f.
Proof. destruct b; vm_compute; auto. Qed.

(** ** [Generate] *)

Section AnyHash.

Variable digest : list byte -> list byte.
Variable hg : Generator.

(** The hash of the generator computes [digest], whatever was written to
    it before, and [digest] gives 16 bytes or more. *)
Hypothesis sum_digest :
  forall a b, h_Sum (h_Write (h_Write (h_Reset (h hg)) a) b) [] = digest (a ++ b).
Hypothesis digest_size : forall x, 16 <= len (digest x).

Lemma Generate_target (target : UUID) (input : list byte) :
  wf_uuid target ->
  snd (Generate hg target input) =
    let t := firstn 16 (digest (namespace hg ++ input)) in
    let t := store t 6 (uint8 ((t.[6] .& 0x0f) .| uint8 ((version hg .& 0xf) << 4))) in
    store t 8 (uint8 ((t.[8] .& 0x3f) .| 0x80)).
Proof.
  unfold wf_uuid. intros Ht. unfold Generate. cbn [snd firstn].
  rewrite sum_digest, copy_over; rewrite Ht; [reflexivity|].
  specialize (digest_size (namespace hg ++ input)). unfold len in *. lia.
Qed.

Lemma Generate_name_based (target : UUID) (input : list byte) :
  version hg = 3 \/ version hg = 5 ->
  wf_uuid target ->
  name_based digest (version hg) (namespace hg) input
    (snd (Generate hg target input)).
Proof.
  intros Hv Ht. rewrite (Generate_target target input Ht).
  set (d := digest (namespace hg ++ input)).
  assert (Hd : length (firstn 16 d) = 16%nat).
  { rewrite length_firstn. specialize (digest_size (namespace hg ++ input)).
    fold d in digest_size. unfold len in *. lia. }
  cbv zeta. set (t0 := firstn 16 d) in *.
  set (x := uint8 ((t0.[6] .& 0x0f) .| uint8 ((version hg .& 0xf) << 4))).
  set (t1 := store t0 6 x).
  assert (H8 : t1.[8] = d.[8]).
  { unfold t1. rewrite index_store_other by lia. apply index_firstn. lia. }
  assert (H6 : t0.[6] = d.[6]) by (apply index_firstn; lia).
  unfold name_based. fold d. repeat split.
  - unfold wf_uuid, t1. now rewrite !length_store.
  - intros i Hi Hi6 Hi8. unfold t1.
    rewrite !index_store_other by lia. apply index_firstn. lia.
  - rewrite index_store_other by lia. unfold t1.
    rewrite index_store_same by (unfold len; lia).
    apply (version_bits t0.[6] (version hg) Hv).
  - rewrite index_store_other by lia. unfold t1.
    rewrite index_store_same by (unfold len; lia).
    rewrite <- H6. apply (version_bits t0.[6] (version hg) Hv).
  - rewrite index_store_same by (unfold len, t1; rewrite length_store; lia).
    apply (variant_bits t1.[8]).
  - rewrite index_store_same by (unfold len, t1; rewrite length_store; lia).
    rewrite <- H8. apply (variant_bits t1.[8]).
Qed.

End AnyHash.

Lemma md5_sum_digest x a b :
  holds_md5 x ->
  h_Sum (h_Write (h_Write (h_Reset x) a) b) [] = md5.checkSum (a ++ b).
Proof. intros [d]. reflexivity. Qed.

Lemma sha1_sum_digest x a b :
  holds_sha1 x ->
  h_Sum (h_Write (h_Write (h_Reset x) a) b) [] = sha1.checkSum (a ++ b).
Proof. intros [d]. reflexivity. Qed.

Lemma Generate_same_kind hg target input :
  same_kind hg (fst (Generate hg target input)).
Proof.
  unfold same_kind. cbn [Generate fst h namespace version].
  repeat split; intros H; destruct H; constructor.
Qed.

Lemma reuse_same_kind calls : forall hg, same_kind hg (reuse hg calls).
Proof.
  induction calls as [|[target input] calls IH]; intros hg.
  - unfold same_kind. tauto.
  - cbn [reuse].
    destruct (Generate_same_kind hg target input) as (A1 & A2 & A3 & A4).
    destruct (IH (fst (Generate hg target input))) as (B1 & B2 & B3 & B4).
    unfold same_kind. repeat split; auto; congruence.
Qed.

Lemma md5_generator ns calls :
  let hg := reuse (NewMD5Gen ns) calls in
  holds_md5 (h hg) /\ namespace hg = ns /\ version hg = 3.
Proof.
  destruct (reuse_same_kind calls (NewMD5Gen ns)) as (A1 & _ & A3 & A4).
  repeat split; auto. apply A1. constructor.
Qed.

Lemma sha1_generator ns calls :
  let hg := reuse (NewSHA1Gen ns) calls in
  holds_sha1 (h hg) /\ namespace hg = ns /\ version hg = 5.
Proof.
  destruct (reuse_same_kind calls (NewSHA1Gen ns)) as (_ & A2 & A3 & A4).
  repeat split; auto. apply A2. constructor.
Qed.

Lemma md5_16 x : 16 <= len (md5.checkSum x).
Proof. rewrite md5_size. unfold md5.Size. lia. Qed.

Lemma sha1_16 x : 16 <= len (sha1.checkSum x).
Proof. rewrite sha1_size. unfold sha1.Size. lia. Qed.

Lemma md5_name_based ns calls target input :
  wf_uuid target ->
  name_based md5.checkSum 3 ns input
    (snd (Generate (reuse (NewMD5Gen ns) calls) target input)).
Proof.
  intros Ht. destruct (md5_generator ns calls) as (Hh & Hns & Hv).
  set (hg := reuse (NewMD5Gen ns) calls) in *.
  rewrite <- Hns, <- Hv.
  apply Generate_name_based; auto using md5_16.
  intros a b. now apply md5_sum_digest.
Qed.

Lemma sha1_name_based ns calls target input :
  wf_uuid target ->
  name_based sha1.checkSum 5 ns input
    (snd (Generate (reuse (NewSHA1Gen ns) calls) target input)).
Proof.
  intros Ht. destruct (sha1_generator ns calls) as (Hh & Hns & Hv).
  set (hg := reuse (NewSHA1Gen ns) calls) in *.
  rewrite <- Hns, <- Hv.
  apply Generate_name_based; auto using sha1_16.
  intros a b. now apply sha1_sum_digest.
Qed.

(** ** Test vectors of the digests

    The test suites of RFC 1321 and RFC 3174: the empty message, a message
    of one block and a message of two blocks. *)

Example md5_empty :
  hexdigits (md5.checkSum []) = str "d41d8cd98f00b204e9800998ecf8427e".
Proof. vm_compute. reflexivity. Qed.

Example md5_abc :
  hexdigits (md5.checkSum (str "abc")) = str "900150983cd24fb0d6963f7d28e17f72".
Proof. vm_compute. reflexivity. Qed.

Example md5_two_blocks :
  hexdigits (md5.checkSum (str
    "12345678901234567890123456789012345678901234567890123456789012345678901234567890"))
  = str "57edf4a22be3c955ac49da2e2107b67a".
Proof. vm_compute. reflexivity. Qed.

Example sha1_empty :
  hexdigits (sha1.checkSum []) = str "da39a3ee5e6b4b0d3255bfef95601890afd80709".
Proof. vm_compute. reflexivity. Qed.

Example sha1_abc :
  hexdigits (sha1.checkSum (str "abc"))
  = str "a9993e364706816aba3e25717850c26c9cd0d89d".
Proof. vm_compute. reflexivity. Qed.

Example sha1_two_blocks :
  hexdigits (sha1.checkSum (str
    "12345678901234567890123456789012345678901234567890123456789012345678901234567890"))
  = str "50abf5706a150990a08b2c5ea40fa0e585554732".
Proof. vm_compute. reflexivity. Qed.

(** ** The strings that [Parse] accepts *)

Lemma fromHexChar_digit (c : byte) :
  isHexDigit c = match fromHexChar c with Some _ => true | None => false end.
Proof. destruct c; vm_compute; reflexivity. Qed.

Lemma DecodeString_accepts d :
  snd (DecodeString d) = None <-> digits d /\ Nat.even (length d) = true.
Proof.
  induction d as [| a | p q d IH] using pair_ind.
  - split; [split; [constructor | reflexivity] | reflexivity].
  - cbn [DecodeString]. split.
    + destruct (fromHexChar a); discriminate.
    + intros [_ H]. discriminate H.
  - cbn [DecodeString length Nat.even]. unfold digits in *.
    rewrite !Forall_cons_iff, (fromHexChar_digit p), (fromHexChar_digit q).
    destruct (fromHexChar p) as [a|], (fromHexChar q) as [b|];
      try (split; [discriminate | intros [(A & B & _) _]; discriminate]).
    destruct (DecodeString d) as [dec err]. cbn [snd] in *. tauto.
Qed.

(** X1: [Parse] returns no error exactly for the strings of 36 bytes with a
    hyphen at each of the four positions whose other bytes, once every
    hyphen among them is dropped, are an even number of digits. *)
Lemma Parse_accepts (s : list byte) :
  snd (Parse s) = None <->
  len s = 36
  /\ (s.[8] = hyphen /\ s.[13] = hyphen /\ s.[18] = hyphen /\ s.[23] = hyphen)
  /\ digits (ReplaceAll s hyphen [])
  /\ Nat.even (length (ReplaceAll s hyphen [])) = true.
Proof.
  rewrite <- DecodeString_accepts. unfold Parse.
  destruct (Z.eqb_spec (len s) 36) as [Hlen|Hlen]; cbn [negb];
    [|split; [discriminate | tauto]].
  destruct (Byte.eqb s.[8] hyphen) eqn:E8, (Byte.eqb s.[13] hyphen) eqn:E13,
    (Byte.eqb s.[18] hyphen) eqn:E18, (Byte.eqb s.[23] hyphen) eqn:E23;
    cbn [negb orb];
    try (split; [discriminate | intros (_ & (A & B & C & D) & _)];
         apply Byte.byte_dec_lb in A, B, C, D; congruence).
  apply Byte.byte_dec_bl in E8, E13, E18, E23.
  destruct (DecodeString _) as [dec [e|]]; cbn [snd]; tauto.
Qed.

(** * The claims *)

(** C1, at the input on which the code departs from it.  The string has
    length 36 and a hyphen at each of the positions 8, 13, 18 and 23, but
    hyphens instead of digits at the positions 0 and 1, so it is not
    canonical.  [Parse] removes every hyphen, decodes the 30 digits that are
    left into 15 bytes and returns them, followed by a zero byte, without an
    error. *)
Theorem Parse_accepts_stray_hyphens :
  canonical stray_hyphens_example = false
  /\ Parse stray_hyphens_example =
       (map uint8 [0x34; 0x56; 0x78; 0x12; 0x34; 0x12; 0x34; 0x12; 0x34;
                   0x12; 0x34; 0x56; 0x78; 0x9a; 0xbc; 0x00], None).
Proof. split; vm_compute; reflexivity. Qed.

(** C3: [Parse] accepts every canonical string, with digits of either case,
    and [String] of the result is the string in lower case; for a canonical
    string in lower case the round trip is the identity. *)
Theorem canonical_roundtrip (s : list byte) :
  canonical s = true ->
  exists u, Parse s = (u, None) /\ String u = ToLower s
            /\ (isLower s = true -> String u = s).
Proof.
  intros Hs. destruct (canonical_grouped s Hs) as (Es & Hlen & Hd).
  remember (ungroup s) as d eqn:Ed. clear Ed.
  assert (Hev : Nat.even (length d) = true) by (rewrite Hlen; reflexivity).
  destruct (DecodeString_digits d Hd Hev) as (u & Eu & Lu).
  assert (Hu : wf_uuid u).
  { unfold wf_uuid. apply (f_equal (@length byte)) in Lu.
    unfold ToLower in Lu. rewrite length_hexdigits, length_map in Lu. lia. }
  assert (Hstr : String u = ToLower s).
  { rewrite (String_grouped u Hu), Lu, Es. symmetry. apply ToLower_grouped. }
  exists u. repeat split.
  - rewrite Es, (Parse_grouped d Hlen Hd), Eu, (copy_zero u Hu). reflexivity.
  - exact Hstr.
  - intros Hlow. rewrite Hstr. apply ToLower_isLower, Hlow.
Qed.

Lemma canonical_roundtrip_witness :
  canonical mixed_case_example = true
  /\ exists u, Parse mixed_case_example = (u, None)
               /\ String u = ToLower mixed_case_example
               /\ (isLower mixed_case_example = true
                   -> String u = mixed_case_example).
Proof.
  split; [reflexivity | apply (canonical_roundtrip mixed_case_example)].
  reflexivity.
Defined.

(** C6: [AppendFormatted] returns its buffer followed by the 36 bytes of
    [String]; the bytes that were in the buffer are still there, and on the
    empty buffer the result is [String] itself. *)
Theorem AppendFormatted_appends_String (u : UUID) (b : list byte) :
  AppendFormatted u b = b ++ String u
  /\ len (String u) = 36
  /\ firstn (length b) (AppendFormatted u b) = b
  /\ AppendFormatted u [] = String u.
Proof.
  assert (H : AppendFormatted u b = b ++ String u) by reflexivity.
  repeat split; try reflexivity.
  rewrite H, firstn_app, Nat.sub_diag, firstn_all. apply app_nil_r.
Qed.

(** C7: formatting a UUID and parsing the text gives the UUID back,
    whatever its 16 bytes are. *)
Theorem String_then_Parse (u : UUID) :
  wf_uuid u -> Parse (String u) = (u, None).
Proof.
  intros Hu. rewrite (String_grouped u Hu), Parse_grouped.
  - rewrite DecodeString_hexdigits, (copy_zero u Hu). reflexivity.
  - rewrite length_hexdigits, Hu. reflexivity.
  - apply digits_hexdigits.
Qed.

Lemma String_then_Parse_witness :
  wf_uuid ns_example /\ Parse (String ns_example) = (ns_example, None).
Proof. split; [reflexivity | apply (String_then_Parse ns_example); reflexivity]. Defined.

(** C9: [MustParse] returns the UUID of [Parse] when [Parse] returns no
    error, and panics when [Parse] returns one; nothing else happens. *)
Theorem MustParse_follows_Parse (s : list byte) :
  (snd (Parse s) = None /\ MustParse s = Returns (fst (Parse s)))
  \/ (exists e, snd (Parse s) = Some e /\ MustParse s = Panics s e).
Proof.
  unfold MustParse. destruct (Parse s) as [u [e|]]; cbn [fst snd]; [right | left]; eauto.
Qed.

(** C10: the UUID that [Parse] returns with an error is the zero UUID. *)
Theorem Parse_error_returns_zero (s : list byte) (e : error) :
  snd (Parse s) = Some e -> fst (Parse s) = zeroUUID.
Proof.
  unfold Parse.
  destruct (negb (len s =? 36)); [reflexivity|].
  destruct (_ || _); [reflexivity|].
  destruct (DecodeString _) as [dec [e'|]]; [reflexivity | discriminate].
Qed.

Lemma Parse_error_returns_zero_witness :
  snd (Parse bad_digit_example) = Some (InvalidByteError "g")
  /\ fst (Parse bad_digit_example) = zeroUUID.
Proof.
  split; [reflexivity|].
  apply (Parse_error_returns_zero bad_digit_example (InvalidByteError "g")).
  reflexivity.
Defined.

(** C2: whatever a generator was used for before, [Generate] leaves in the
    target the first 16 bytes of the MD5 (version 3) or SHA-1 (version 5)
    digest of the namespace followed by the input, except for the high
    nibble of byte 6, which is the version, and the two high bits of byte 8,
    which are [10]; the other bits of the two bytes are those of the
    digest. *)
Theorem Generate_writes_digest (ns : UUID) (calls : list (UUID * list byte))
    (target : UUID) (input : list byte) :
  wf_uuid target ->
  name_based md5.checkSum 3 ns input
    (snd (Generate (reuse (NewMD5Gen ns) calls) target input))
  /\ name_based sha1.checkSum 5 ns input
       (snd (Generate (reuse (NewSHA1Gen ns) calls) target input)).
Proof. intros Ht. split; [now apply md5_name_based | now apply sha1_name_based]. Qed.

Lemma Generate_writes_digest_witness :
  wf_uuid ns_example
  /\ name_based md5.checkSum 3 ns_example (str "input 1")
       (snd (Generate (reuse (NewMD5Gen ns_example) [(zeroUUID, str "abc")])
               ns_example (str "input 1")))
  /\ name_based sha1.checkSum 5 ns_example (str "input 1")
       (snd (Generate (reuse (NewSHA1Gen ns_example) [(zeroUUID, str "abc")])
               ns_example (str "input 1"))).
Proof.
  split; [reflexivity|].
  apply (Generate_writes_digest ns_example [(zeroUUID, str "abc")] ns_example
           (str "input 1")).
  reflexivity.
Defined.

(** C4: in every UUID that [Generate] writes, the high nibble of byte 6 is
    the version of the generator, 3 for MD5 and 5 for SHA-1, and the two
    high bits of byte 8 are [10]. *)
Theorem Generate_sets_version_variant (ns : UUID) (calls : list (UUID * list byte))
    (target : UUID) (input : list byte) :
  wf_uuid target ->
  let u3 := snd (Generate (reuse (NewMD5Gen ns) calls) target input) in
  let u5 := snd (Generate (reuse (NewSHA1Gen ns) calls) target input) in
  (u3.[6] >> 4 = 3 /\ u3.[8] >> 6 = 2) /\ (u5.[6] >> 4 = 5 /\ u5.[8] >> 6 = 2).
Proof.
  intros Ht.
  destruct (md5_name_based ns calls target input Ht) as (_ & _ & A & _ & B & _).
  destruct (sha1_name_based ns calls target input Ht) as (_ & _ & C & _ & D & _).
  cbv zeta. auto.
Qed.

Lemma Generate_sets_version_variant_witness :
  wf_uuid zeroUUID
  /\ let u3 := snd (Generate (reuse (NewMD5Gen ns_example) []) zeroUUID
                      (str "input 1")) in
     let u5 := snd (Generate (reuse (NewSHA1Gen ns_example) []) zeroUUID
                      (str "input 1")) in
     (u3.[6] >> 4 = 3 /\ u3.[8] >> 6 = 2) /\ (u5.[6] >> 4 = 5 /\ u5.[8] >> 6 = 2).
Proof.
  split; [reflexivity|].
  apply (Generate_sets_version_variant ns_example [] zeroUUID (str "input 1")).
  reflexivity.
Defined.

(** C5: the two examples of the test suite, with the SHA-1 generator of the
    namespace 15588635-a45e-4867-aadb-dbf0385ade95. *)
Theorem Generate_sha1_examples :
  let gen := NewSHA1Gen ns_example in
  String (snd (Generate gen zeroUUID (str "input 1")))
    = str "4c816dc1-9418-502e-9b91-f17b83891bf8"
  /\ String (snd (Generate gen zeroUUID
       (str "input 123456123456123456123456123456123456123456123456123456123456123456123456123456123456")))
    = str "0a550dec-ba3e-52c2-a54d-60795ea13c90".
Proof. split; vm_compute; reflexivity. Qed.

(** C8: the target after [Generate] depends on the kind of the generator,
    on its namespace and on the input only: neither the calls made on the
    generator before nor the previous content of the target change any of
    its 16 bytes. *)
Theorem Generate_history_free (ns : UUID)
    (calls calls' : list (UUID * list byte)) (target target' : UUID)
    (input : list byte) :
  wf_uuid target -> wf_uuid target' ->
  snd (Generate (reuse (NewMD5Gen ns) calls) target input)
    = snd (Generate (reuse (NewMD5Gen ns) calls') target' input)
  /\ snd (Generate (reuse (NewSHA1Gen ns) calls) target input)
     = snd (Generate (reuse (NewSHA1Gen ns) calls') target' input).
Proof.
  intros Ht Ht'. split.
  - destruct (md5_generator ns calls) as (Hh & Hns & Hv).
    destruct (md5_generator ns calls') as (Hh' & Hns' & Hv').
    rewrite (Generate_target md5.checkSum _ (fun a b => md5_sum_digest _ a b Hh)
               md5_16 target input Ht).
    rewrite (Generate_target md5.checkSum _ (fun a b => md5_sum_digest _ a b Hh')
               md5_16 target' input Ht').
    rewrite Hns, Hns', Hv, Hv'. reflexivity.
  - destruct (sha1_generator ns calls) as (Hh & Hns & Hv).
    destruct (sha1_generator ns calls') as (Hh' & Hns' & Hv').
    rewrite (Generate_target sha1.checkSum _ (fun a b => sha1_sum_digest _ a b Hh)
               sha1_16 target input Ht).
    rewrite (Generate_target sha1.checkSum _ (fun a b => sha1_sum_digest _ a b Hh')
               sha1_16 target' input Ht').
    rewrite Hns, Hns', Hv, Hv'. reflexivity.
Qed.

Lemma Generate_history_free_witness :
  wf_uuid zeroUUID /\ wf_uuid ns_example
  /\ snd (Generate (reuse (NewMD5Gen ns_example) [(zeroUUID, str "other input")])
            zeroUUID (str "input 1"))
     = snd (Generate (reuse (NewMD5Gen ns_example) []) ns_example (str "input 1"))
  /\ snd (Generate (reuse (NewSHA1Gen ns_example) [(zeroUUID, str "other input")])
            zeroUUID (str "input 1"))
     = snd (Generate (reuse (NewSHA1Gen ns_example) []) ns_example (str "input 1")).
Proof.
  split; [reflexivity | split; [reflexivity|]].
  apply (Generate_history_free ns_example [(zeroUUID, str "other input")] []
           zeroUUID ns_example (str "input 1")); reflexivity.
Defined.

(** * Further properties of the package *)

(** ** The errors of [Parse] *)

Lemma DecodeString_error d :
  snd (DecodeString d) =
    match find (fun c => negb (isHexDigit c)) d with
    | Some b => Some (InvalidByteError b)
    | None => if Nat.even (length d) then None else Some ErrLength
    end.
Proof.
  induction d as [| a | p q d IH] using pair_ind.
  - reflexivity.
  - cbn [DecodeString find length Nat.even]. rewrite (fromHexChar_digit a).
    destruct (fromHexChar a); reflexivity.
  - cbn [DecodeString find length Nat.even].
    rewrite (fromHexChar_digit p), (fromHexChar_digit q).
    destruct (fromHexChar p), (fromHexChar q); cbn [negb]; try reflexivity.
    destruct (DecodeString d) as [dec err]. exact IH.
Qed.

Lemma eqb_hyphen (c : byte) :
  Byte.eqb c hyphen = if Byte.byte_eq_dec c hyphen then true else false.
Proof.
  destruct (Byte.byte_eq_dec c hyphen) as [->|Hc]; [reflexivity|].
  destruct (Byte.eqb c hyphen) eqn:E; [|reflexivity].
  apply Byte.byte_dec_bl in E. contradiction.
Qed.

Lemma find_ReplaceAll s :
  find (fun c => negb (isHexDigit c)) (ReplaceAll s hyphen []) = find stray s.
Proof.
  induction s as [|c s IH]; [reflexivity|].
  unfold ReplaceAll in *. cbn [flat_map find]. unfold stray at 1.
  destruct (Byte.eqb c hyphen); cbn [app negb andb find]; rewrite IH; reflexivity.
Qed.

Lemma length_ReplaceAll s :
  (length (ReplaceAll s hyphen []) + hyphens s = length s)%nat.
Proof.
  induction s as [|c s IH]; [reflexivity|].
  unfold ReplaceAll, hyphens in *. cbn [flat_map count_occ].
  rewrite eqb_hyphen. destruct (Byte.byte_eq_dec c hyphen); cbn [app length]; lia.
Qed.

Lemma even_ReplaceAll s :
  len s = 36 ->
  Nat.even (length (ReplaceAll s hyphen [])) = Nat.even (hyphens s).
Proof.
  unfold len. intros H. pose proof (length_ReplaceAll s) as L.
  replace (length (ReplaceAll s hyphen [])) with (36 - hyphens s)%nat by lia.
  rewrite Nat.even_sub by lia. change (Nat.even 36) with true.
  destruct (Nat.even (hyphens s)); reflexivity.
Qed.

(** The error of [Parse], read off the string. *)
Lemma Parse_classified s :
  snd (Parse s) =
    if negb (len s =? 36) then Some (ErrExpectedLength (len s))
    else if negb (separators s) then Some ErrInvalidFormat
    else match find stray s with
         | Some b => Some (InvalidByteError b)
         | None => if Nat.even (hyphens s) then None else Some ErrLength
         end.
Proof.
  unfold Parse, separators.
  destruct (Z.eqb_spec (len s) 36) as [Hlen|Hlen]; cbn [negb]; [|reflexivity].
  destruct (Byte.eqb s.[8] hyphen), (Byte.eqb s.[13] hyphen),
    (Byte.eqb s.[18] hyphen), (Byte.eqb s.[23] hyphen);
    cbn [negb orb andb]; try reflexivity.
  pose proof (DecodeString_error (ReplaceAll s hyphen [])) as H.
  rewrite find_ReplaceAll, (even_ReplaceAll s Hlen) in H.
  destruct (DecodeString _) as [dec [e|]]; exact H.
Qed.

(** X2: [Parse] reports the length of the string exactly when the length is
    not 36, whatever the string holds, and reports an invalid format exactly
    when the length is 36 and one of the four separators is missing. *)
Theorem Parse_length_and_format_errors (s : list byte) (n : Z) :
  (snd (Parse s) = Some (ErrExpectedLength n) <-> len s <> 36 /\ n = len s)
  /\ (snd (Parse s) = Some ErrInvalidFormat
      <-> len s = 36 /\ separators s = false).
Proof.
  rewrite (Parse_classified s).
  destruct (Z.eqb_spec (len s) 36) as [Hlen|Hlen]; cbn [negb];
    [destruct (separators s); cbn [negb];
     [destruct (find stray s); [|destruct (Nat.even (hyphens s))]|]|];
    split; split; intros H;
    try discriminate H;
    try (destruct H; first [congruence | discriminate]);
    try (injection H as <-); auto.
Qed.

(** X3: [Parse] reports an invalid byte exactly when the length and the
    separators are right and the string holds a byte that is neither a
    hyphen nor a hexadecimal digit; the byte reported is the first one. *)
Theorem Parse_invalid_byte (s : list byte) (b : byte) :
  snd (Parse s) = Some (InvalidByteError b)
  <-> len s = 36 /\ separators s = true /\ find stray s = Some b.
Proof.
  rewrite (Parse_classified s).
  destruct (Z.eqb_spec (len s) 36) as [Hlen|Hlen]; cbn [negb];
    [|split; [discriminate | tauto]].
  destruct (separators s); cbn [negb];
    [|split; [discriminate | intros (_ & A & _); discriminate]].
  destruct (find stray s) as [c|]; [|destruct (Nat.even (hyphens s))];
    split; try discriminate; try (intros (_ & _ & A); discriminate).
  - intros H. injection H as ->. auto.
  - intros (_ & _ & H). injection H as ->. reflexivity.
Qed.

(** X4: [Parse] reports an odd length of the digits exactly when the length
    and the separators are right, every byte is a hyphen or a digit, and the
    number of hyphens is odd. *)
Theorem Parse_odd_hyphens (s : list byte) :
  snd (Parse s) = Some ErrLength
  <-> len s = 36 /\ separators s = true /\ find stray s = None
      /\ Nat.odd (hyphens s) = true.
Proof.
  rewrite (Parse_classified s). unfold Nat.odd.
  destruct (Z.eqb_spec (len s) 36) as [Hlen|Hlen]; cbn [negb];
    [|split; [discriminate | tauto]].
  destruct (separators s); cbn [negb];
    [|split; [discriminate | intros (_ & A & _); discriminate]].
  destruct (find stray s) as [c|];
    [split; [discriminate | intros (_ & _ & A & _); discriminate]|].
  destruct (Nat.even (hyphens s)); cbn [negb]; split; auto; try discriminate.
  intros (_ & _ & _ & A). discriminate.
Qed.

(** ** Canonical strings and the strings [Parse] accepts *)

(** The goal [canonical] leaves at position [n] of an explicit list. *)
Ltac at_position :=
  lazymatch goal with
  | |- context [isSeparator (Z.of_nat ?n)] =>
      let b := eval vm_compute in (isSeparator (Z.of_nat n)) in
      change (isSeparator (Z.of_nat n)) with b;
      unfold index; rewrite Nat2Z.id; cbn [nth];
      first [assumption | reflexivity]
  end.

Lemma canonical_of_grouped d :
  length d = 32%nat -> digits d -> canonical (grouped d) = true.
Proof.
  intros H Hd.
  do 32 (destruct d as [|? d]; [discriminate H|]).
  destruct d; [|discriminate H]. clear H.
  unfold digits in Hd.
  repeat (apply Forall_cons_iff in Hd; destruct Hd as [? Hd]). clear Hd.
  cbn [grouped firstn skipn app].
  unfold canonical. apply andb_true_intro. split; [reflexivity|].
  apply forallb_forall. intros i Hi.
  apply in_map_iff in Hi. destruct Hi as (n & <- & Hn).
  apply in_seq in Hn.
  do 36 (destruct n as [|n]; [at_position|]).
  lia.
Qed.

Lemma shape_grouped s :
  len s = 36 -> separators s = true ->
  s = grouped (ungroup s) /\ length (ungroup s) = 32%nat.
Proof.
  unfold len, separators. intros Hlen H.
  assert (Hl : length s = 36%nat) by lia. clear Hlen.
  do 36 (destruct s as [|? s]; [discriminate Hl|]).
  destruct s; [|discriminate Hl]. clear Hl.
  unfold index in H.
  change (Z.to_nat 8) with 8%nat in H. change (Z.to_nat 13) with 13%nat in H.
  change (Z.to_nat 18) with 18%nat in H. change (Z.to_nat 23) with 23%nat in H.
  cbn [nth] in H.
  repeat (apply andb_prop in H; destruct H as [H ?]).
  repeat match goal with
         | E : Byte.eqb _ hyphen = true |- _ => apply Byte.byte_dec_bl in E
         end.
  subst. split; reflexivity.
Qed.

Lemma hyphens_app s t : hyphens (s ++ t) = (hyphens s + hyphens t)%nat.
Proof. apply count_occ_app. Qed.

Lemma hyphens_hyphen t : hyphens (hyphen :: t) = S (hyphens t).
Proof. unfold hyphens. now rewrite count_occ_cons_eq. Qed.

Lemma hyphens_grouped d : hyphens (grouped d) = (4 + hyphens d)%nat.
Proof.
  assert (E := f_equal hyphens (regroup d)). rewrite !hyphens_app in E.
  unfold grouped. repeat (rewrite hyphens_app || rewrite hyphens_hyphen). lia.
Qed.





(** Every canonical string is parsed, without error, to a UUID whose text
    is the string in lower case. *)
Lemma Parse_canonical s :
  canonical s = true ->
  exists u, Parse s = (u, None) /\ wf_uuid u /\ String u = ToLower s.
Proof.
  intros Hs. destruct (canonical_grouped s Hs) as (Es & Hlen & Hd).
  remember (ungroup s) as d eqn:Ed. clear Ed.
  assert (Hev : Nat.even (length d) = true) by (rewrite Hlen; reflexivity).
  destruct (DecodeString_digits d Hd Hev) as (u & Eu & Lu).
  assert (Hu : wf_uuid u).
  { unfold wf_uuid. apply (f_equal (@length byte)) in Lu.
    unfold ToLower in Lu. rewrite length_hexdigits, length_map in Lu. lia. }
  exists u. repeat split; [|exact Hu|].
  - rewrite Es, (Parse_grouped d Hlen Hd), Eu, (copy_zero u Hu). reflexivity.
  - rewrite (String_grouped u Hu), Lu, Es. symmetry. apply ToLower_grouped.
Qed.


Lemma DecodeString_length d :
  forall dec, DecodeString d = (dec, None) -> (2 * length dec = length d)%nat.
Proof.
  induction d as [| a | p q d IH] using pair_ind; intros dec.
  - intros H. injection H as <-. reflexivity.
  - cbn [DecodeString]. destruct (fromHexChar a); discriminate.
  - cbn [DecodeString].
    destruct (fromHexChar p), (fromHexChar q); try discriminate.
    destruct (DecodeString d) as [dec' err]. intros H. injection H as <- ->.
    cbn [length]. rewrite <- (IH dec' eq_refl). lia.
Qed.

Lemma copy_zero_short (dec : list byte) :
  (length dec <= 16)%nat ->
  copy zeroUUID dec = dec ++ repeat Byte.x00 (16 - length dec).
Proof.
  intros H. unfold copy. change (length zeroUUID) with 16%nat.
  rewrite Nat.min_r, firstn_all by exact H. f_equal.
  revert H. generalize (length dec) as n. intros n H.
  do 17 (destruct n as [|n]; [reflexivity|]). lia.
Qed.

(** X6: when [Parse] accepts a string, its UUID is made of the bytes that
    the digits of the string decode to, two digits to a byte, followed by
    zero bytes up to 16; a string with four hyphens gives 16 decoded bytes,
    and each further pair of hyphens gives one byte less. *)
Theorem Parse_accepted_value (s : list byte) :
  snd (Parse s) = None ->
  exists dec,
    DecodeString (ReplaceAll s hyphen []) = (dec, None)
    /\ (2 * length dec + hyphens s = 36)%nat
    /\ (4 <= hyphens s)%nat
    /\ fst (Parse s) = dec ++ repeat Byte.x00 (16 - length dec).
Proof.
  intros Hok. pose proof (Parse_classified s) as Hc. rewrite Hok in Hc.
  destruct (Z.eqb_spec (len s) 36) as [Hlen|Hlen]; [|discriminate Hc].
  destruct (separators s) eqn:Hsep; [|discriminate Hc]. clear Hc.
  destruct (shape_grouped s Hlen Hsep) as (Es & _).
  assert (H4 : (4 <= hyphens s)%nat) by (rewrite Es, hyphens_grouped; lia).
  pose proof (length_ReplaceAll s) as Hl.
  revert Hok. unfold Parse.
  destruct (negb (len s =? 36)); [discriminate|].
  destruct (_ || _); [discriminate|].
  destruct (DecodeString _) as [dec [e|]] eqn:E; [discriminate|]. intros _.
  pose proof (DecodeString_length _ dec E) as Hd.
  unfold len in Hlen.
  exists dec. repeat split; try lia.
  apply copy_zero_short. lia.
Qed.

Lemma Parse_accepted_value_witness :
  snd (Parse stray_hyphens_example) = None
  /\ exists dec,
       DecodeString (ReplaceAll stray_hyphens_example hyphen []) = (dec, None)
       /\ (2 * length dec + hyphens stray_hyphens_example = 36)%nat
       /\ (4 <= hyphens stray_hyphens_example)%nat
       /\ fst (Parse stray_hyphens_example)
          = dec ++ repeat Byte.x00 (16 - length dec).
Proof.
  split; [reflexivity|].
  apply (Parse_accepted_value stray_hyphens_example). reflexivity.
Defined.

(** ** [String] *)

Lemma toLower_encode_byte (b : byte) :
  map toLower (encode_byte b) = encode_byte b.
Proof. destruct b; vm_compute; reflexivity. Qed.

Lemma ToLower_hexdigits u : ToLower (hexdigits u) = hexdigits u.
Proof.
  induction u as [|b u IH]; [reflexivity|].
  unfold ToLower, hexdigits in *. cbn [flat_map].
  rewrite map_app, toLower_encode_byte, IH. reflexivity.
Qed.

Lemma toLower_fixed (c : byte) :
  toLower c = c -> negb ((u8 "A" <=? c) && (c <=? u8 "Z")) = true.
Proof. destruct c; intros H; try reflexivity; vm_compute in H; discriminate H. Qed.

Lemma isLower_ToLower s : ToLower s = s -> isLower s = true.
Proof.
  induction s as [|c s IH]; [reflexivity|].
  cbn [ToLower map isLower forallb]. intros H. injection H as Hc Hs.
  rewrite (toLower_fixed c Hc). exact (IH Hs).
Qed.

Lemma ReplaceAll_String u :
  wf_uuid u -> ReplaceAll (String u) hyphen [] = hexdigits u.
Proof.
  intros Hu. rewrite (String_grouped u Hu).
  apply ReplaceAll_grouped, digits_hexdigits.
Qed.

Lemma hexdigits_inj u v : hexdigits u = hexdigits v -> u = v.
Proof.
  intros H. apply (f_equal DecodeString) in H.
  rewrite !DecodeString_hexdigits in H. congruence.
Qed.

(** X7: the text of every UUID is a canonical string without an upper case
    letter. *)
Theorem String_canonical_lower (u : UUID) :
  wf_uuid u -> canonical (String u) = true /\ isLower (String u) = true.
Proof.
  intros Hu. rewrite (String_grouped u Hu). split.
  - apply canonical_of_grouped; [|apply digits_hexdigits].
    rewrite length_hexdigits, Hu. reflexivity.
  - apply isLower_ToLower. now rewrite ToLower_grouped, ToLower_hexdigits.
Qed.

Lemma String_canonical_lower_witness :
  wf_uuid ns_example
  /\ canonical (String ns_example) = true /\ isLower (String ns_example) = true.
Proof.
  split; [reflexivity | apply (String_canonical_lower ns_example); reflexivity].
Defined.

(** X8: two UUIDs with the same text are the same UUID. *)
Theorem String_injective (u v : UUID) :
  wf_uuid u -> wf_uuid v -> String u = String v -> u = v.
Proof.
  intros Hu Hv H. apply (f_equal (fun s => ReplaceAll s hyphen [])) in H.
  rewrite (ReplaceAll_String u Hu), (ReplaceAll_String v Hv) in H.
  exact (hexdigits_inj u v H).
Qed.

Lemma String_injective_witness :
  wf_uuid ns_example /\ wf_uuid (fst (Parse mixed_case_example))
  /\ String ns_example = String (fst (Parse mixed_case_example))
  /\ ns_example = fst (Parse mixed_case_example).
Proof.
  split; [reflexivity | split; [reflexivity | split; [reflexivity|]]].
  apply (String_injective ns_example (fst (Parse mixed_case_example)));
    reflexivity.
Defined.

(** X9: two canonical strings are parsed to the same UUID exactly when they
    differ in the case of their digits only. *)
Theorem Parse_equal_iff_same_lower (s t : list byte) :
  canonical s = true -> canonical t = true ->
  (Parse s = Parse t <-> ToLower s = ToLower t).
Proof.
  intros Hs Ht.
  destruct (Parse_canonical s Hs) as (u & Eu & Hu & Lu).
  destruct (Parse_canonical t Ht) as (v & Ev & Hv & Lv).
  rewrite Eu, Ev, <- Lu, <- Lv. split.
  - intros H. injection H as ->. reflexivity.
  - intros H. apply (f_equal (fun s => ReplaceAll s hyphen [])) in H.
    rewrite (ReplaceAll_String u Hu), (ReplaceAll_String v Hv) in H.
    now rewrite (hexdigits_inj u v H).
Qed.

Lemma Parse_equal_iff_same_lower_witness :
  canonical mixed_case_example = true
  /\ canonical (String ns_example) = true
  /\ (Parse mixed_case_example = Parse (String ns_example)
      <-> ToLower mixed_case_example = ToLower (String ns_example)).
Proof.
  split; [reflexivity | split; [reflexivity|]].
  apply (Parse_equal_iff_same_lower mixed_case_example (String ns_example));
    reflexivity.
Defined.

(** ** [MustParse] and [AppendFormatted] after [Parse] *)

(** X10: [MustParse] does not panic on a canonical string; it returns the
    UUID whose text is the string in lower case. *)
Theorem MustParse_canonical (s : list byte) :
  canonical s = true ->
  exists u, MustParse s = Returns u /\ wf_uuid u /\ String u = ToLower s.
Proof.
  intros Hs. destruct (Parse_canonical s Hs) as (u & Eu & Hu & Lu).
  exists u. unfold MustParse. rewrite Eu. auto.
Qed.

Lemma MustParse_canonical_witness :
  canonical mixed_case_example = true
  /\ exists u, MustParse mixed_case_example = Returns u /\ wf_uuid u
               /\ String u = ToLower mixed_case_example.
Proof.
  split; [reflexivity | apply (MustParse_canonical mixed_case_example)].
  reflexivity.
Defined.

(** X11: appending the UUID of a canonical string to a buffer appends the
    string in lower case, whatever the buffer holds. *)
Theorem AppendFormatted_after_Parse (s b : list byte) :
  canonical s = true ->
  AppendFormatted (fst (Parse s)) b = b ++ ToLower s.
Proof.
  intros Hs. destruct (Parse_canonical s Hs) as (u & Eu & Hu & Lu).
  rewrite Eu. cbn [fst]. rewrite <- Lu. reflexivity.
Qed.

Lemma AppendFormatted_after_Parse_witness :
  canonical mixed_case_example = true
  /\ AppendFormatted (fst (Parse mixed_case_example)) (str "id=")
     = str "id=" ++ ToLower mixed_case_example.
Proof.
  split; [reflexivity|].
  apply (AppendFormatted_after_Parse mixed_case_example (str "id=")).
  reflexivity.
Defined.

(** ** The generator *)

Lemma md5_buf calls : forall hg,
  holds_md5 (h hg) -> len (buf hg) = 16 -> len (buf (reuse hg calls)) = 16.
Proof.
  induction calls as [|[target input] calls IH]; intros hg Hh Hb; [exact Hb|].
  cbn [reuse]. apply IH.
  - now apply Generate_same_kind.
  - cbn [Generate fst buf firstn]. rewrite (md5_sum_digest _ _ _ Hh).
    apply md5_size.
Qed.

Lemma sha1_buf calls : forall hg,
  holds_sha1 (h hg) -> len (buf hg) = 20 -> len (buf (reuse hg calls)) = 20.
Proof.
  induction calls as [|[target input] calls IH]; intros hg Hh Hb; [exact Hb|].
  cbn [reuse]. apply IH.
  - now apply Generate_same_kind.
  - cbn [Generate fst buf firstn]. rewrite (sha1_sum_digest _ _ _ Hh).
    apply sha1_size.
Qed.

(** X12: however a generator has been used, its namespace and its version
    are those of its construction and its buffer has the size of the digest
    (16 bytes for MD5, 20 for SHA-1), as allocated by the constructor; after
    a call the buffer holds the whole digest of the namespace followed by
    the input of that call. *)
Theorem Generator_invariant (ns : UUID) (calls : list (UUID * list byte))
    (target : UUID) (input : list byte) :
  (let g := reuse (NewMD5Gen ns) calls in
   len (buf g) = 16 /\ namespace g = ns /\ version g = 3
   /\ buf (fst (Generate g target input)) = md5.checkSum (ns ++ input))
  /\ (let g := reuse (NewSHA1Gen ns) calls in
      len (buf g) = 20 /\ namespace g = ns /\ version g = 5
      /\ buf (fst (Generate g target input)) = sha1.checkSum (ns ++ input)).
Proof.
  split; cbv zeta.
  - destruct (md5_generator ns calls) as (Hh & Hns & Hv).
    repeat split; auto.
    + apply md5_buf; [constructor | reflexivity].
    + cbn [Generate fst buf firstn].
      rewrite (md5_sum_digest _ _ _ Hh), Hns. reflexivity.
  - destruct (sha1_generator ns calls) as (Hh & Hns & Hv).
    repeat split; auto.
    + apply sha1_buf; [constructor | reflexivity].
    + cbn [Generate fst buf firstn].
      rewrite (sha1_sum_digest _ _ _ Hh), Hns. reflexivity.
Qed.

(** X13: [Generate] never writes the zero UUID. *)
Theorem Generate_never_zero (ns : UUID) (calls : list (UUID * list byte))
    (target : UUID) (input : list byte) :
  wf_uuid target ->
  snd (Generate (reuse (NewMD5Gen ns) calls) target input) <> zeroUUID
  /\ snd (Generate (reuse (NewSHA1Gen ns) calls) target input) <> zeroUUID.
Proof.
  intros Ht.
  destruct (md5_name_based ns calls target input Ht) as (_ & _ & _ & _ & A & _).
  destruct (sha1_name_based ns calls target input Ht) as (_ & _ & _ & _ & B & _).
  split; intros E; [rewrite E in A | rewrite E in B]; discriminate.
Qed.

Lemma Generate_never_zero_witness :
  wf_uuid zeroUUID
  /\ snd (Generate (reuse (NewMD5Gen zeroUUID) []) zeroUUID []) <> zeroUUID
  /\ snd (Generate (reuse (NewSHA1Gen zeroUUID) []) zeroUUID []) <> zeroUUID.
Proof.
  split; [reflexivity|].
  apply (Generate_never_zero zeroUUID [] zeroUUID []). reflexivity.
Defined.

(** X14: a UUID written by an MD5 generator is never equal to a UUID
    written by a SHA-1 generator, whatever the namespaces and the inputs. *)
Theorem Generate_md5_sha1_differ (ns ns' : UUID)
    (calls calls' : list (UUID * list byte)) (target target' : UUID)
    (input input' : list byte) :
  wf_uuid target -> wf_uuid target' ->
  snd (Generate (reuse (NewMD5Gen ns) calls) target input)
  <> snd (Generate (reuse (NewSHA1Gen ns') calls') target' input').
Proof.
  intros Ht Ht' E.
  destruct (md5_name_based ns calls target input Ht) as (_ & _ & A & _).
  destruct (sha1_name_based ns' calls' target' input' Ht') as (_ & _ & B & _).
  rewrite E, B in A. discriminate A.
Qed.

Lemma Generate_md5_sha1_differ_witness :
  wf_uuid zeroUUID /\ wf_uuid ns_example
  /\ snd (Generate (reuse (NewMD5Gen ns_example) []) zeroUUID (str "input 1"))
     <> snd (Generate (reuse (NewSHA1Gen ns_example) []) ns_example
               (str "input 1")).
Proof.
  split; [reflexivity | split; [reflexivity|]].
  apply (Generate_md5_sha1_differ ns_example ns_example [] [] zeroUUID
           ns_example (str "input 1") (str "input 1")); reflexivity.
Defined.

Lemma variant_digit (b : byte) :
  b >> 6 = 2 -> In hextable.[b >> 4] (str "89ab").
Proof.
  destruct b; intros H; try (vm_compute in H; discriminate H);
    first [ left; reflexivity | right; left; reflexivity
          | right; right; left; reflexivity
          | right; right; right; left; reflexivity ].
Qed.

(** X15: in the text of a UUID written by [Generate], the character at
    position 14 is the version, 3 for MD5 and 5 for SHA-1, and the
    character at position 19 is one of 8, 9, a and b. *)
Theorem Generate_text_fields (ns : UUID) (calls : list (UUID * list byte))
    (target : UUID) (input : list byte) :
  wf_uuid target ->
  let s3 := String (snd (Generate (reuse (NewMD5Gen ns) calls) target input)) in
  let s5 := String (snd (Generate (reuse (NewSHA1Gen ns) calls) target input)) in
  (s3.[14] = "3"%byte /\ In s3.[19] (str "89ab"))
  /\ (s5.[14] = "5"%byte /\ In s5.[19] (str "89ab")).
Proof.
  intros Ht.
  destruct (md5_name_based ns calls target input Ht) as (_ & _ & A & _ & B & _).
  destruct (sha1_name_based ns calls target input Ht) as (_ & _ & C & _ & D & _).
  cbv zeta.
  set (u3 := snd (Generate (reuse (NewMD5Gen ns) calls) target input)) in *.
  set (u5 := snd (Generate (reuse (NewSHA1Gen ns) calls) target input)) in *.
  change ((String u3).[14]) with (hextable.[u3.[6] >> 4]).
  change ((String u3).[19]) with (hextable.[u3.[8] >> 4]).
  change ((String u5).[14]) with (hextable.[u5.[6] >> 4]).
  change ((String u5).[19]) with (hextable.[u5.[8] >> 4]).
  rewrite A, C. auto using variant_digit.
Qed.

Lemma Generate_text_fields_witness :
  wf_uuid zeroUUID
  /\ let s3 := String (snd (Generate (reuse (NewMD5Gen ns_example) []) zeroUUID
                              (str "input 1"))) in
     let s5 := String (snd (Generate (reuse (NewSHA1Gen ns_example) []) zeroUUID
                              (str "input 1"))) in
     (s3.[14] = "3"%byte /\ In s3.[19] (str "89ab"))
     /\ (s5.[14] = "5"%byte /\ In s5.[19] (str "89ab")).
Proof.
  split; [reflexivity|].
  apply (Generate_text_fields ns_example [] zeroUUID (str "input 1")).
  reflexivity.
Defined.

(** ** The bytes that [Parse] decodes *)

Lemma DecodeString_nth d :
  digits d -> Nat.even (length d) = true ->
  forall k, (2 * k < length d)%nat ->
  exists a b,
    fromHexChar (nth (2 * k) d Byte.x00) = Some a
    /\ fromHexChar (nth (2 * k + 1) d Byte.x00) = Some b
    /\ nth k (fst (DecodeString d)) Byte.x00 = uint8 ((a << 4) .| b).
Proof.
  induction d as [| c | p q d IH] using pair_ind; intros Hd Hev k Hk.
  - cbn [length] in Hk. lia.
  - discriminate Hev.
  - inversion Hd as [|? ? Hp Hd']; subst. inversion Hd' as [|? ? Hq Hd'']; subst.
    destruct (hex_pair p q Hp Hq) as (a & b & Ea & Eb & _).
    cbn [DecodeString]. rewrite Ea, Eb.
    destruct (DecodeString d) as [dec err] eqn:E. cbn [fst] in *.
    destruct k as [|k].
    + exists a, b. auto.
    + cbn [length] in Hk.
      destruct (IH Hd'' Hev k ltac:(lia)) as (a' & b' & Ea' & Eb' & Hn).
      exists a', b'.
      replace (2 * S k)%nat with (S (S (2 * k))) by lia.
      replace (S (S (2 * k)) + 1)%nat with (S (S (2 * k + 1))) by lia.
      auto.
Qed.

Lemma grouped_digit d (k : nat) :
  length d = 32%nat -> (k < 16)%nat ->
  (grouped d).[digit_position (Z.of_nat k)] = nth (2 * k) d Byte.x00
  /\ (grouped d).[digit_position (Z.of_nat k) + 1] = nth (2 * k + 1) d Byte.x00.
Proof.
  intros H Hk.
  do 32 (destruct d as [|? d]; [discriminate H|]).
  destruct d; [|discriminate H]. clear H.
  do 16 (destruct k as [|k]; [split; reflexivity|]). lia.
Qed.

(** X16: for a canonical string, byte [k] of the UUID that [Parse] returns
    is made of the two digits at the positions [digit_position k] and
    [digit_position k + 1] of the string, the first one as the high
    nibble. *)
Theorem Parse_byte (s : list byte) (k : Z) :
  canonical s = true -> 0 <= k < 16 ->
  exists a b,
    fromHexChar s.[digit_position k] = Some a
    /\ fromHexChar s.[digit_position k + 1] = Some b
    /\ (fst (Parse s)).[k] = uint8 ((a << 4) .| b).
Proof.
  intros Hs Hk. destruct (canonical_grouped s Hs) as (Es & Hlen & Hd).
  remember (ungroup s) as d eqn:Ed. clear Ed.
  assert (Hev : Nat.even (length d) = true) by (rewrite Hlen; reflexivity).
  destruct (DecodeString_nth d Hd Hev (Z.to_nat k) ltac:(lia))
    as (a & b & Ea & Eb & Hn).
  destruct (grouped_digit d (Z.to_nat k) Hlen ltac:(lia)) as (G1 & G2).
  rewrite Z2Nat.id in G1, G2 by lia.
  exists a, b. rewrite Es, G1, G2. repeat split; [exact Ea | exact Eb |].
  rewrite (Parse_grouped d Hlen Hd).
  destruct (DecodeString_digits d Hd Hev) as (u & Eu & Lu).
  rewrite Eu in *. cbn [fst] in *.
  rewrite copy_zero; [exact Hn|].
  apply (f_equal (@length byte)) in Lu.
  unfold ToLower in Lu. rewrite length_hexdigits, length_map in Lu. lia.
Qed.

Lemma Parse_byte_witness :
  canonical mixed_case_example = true /\ 0 <= 5 < 16
  /\ exists a b,
       fromHexChar mixed_case_example.[digit_position 5] = Some a
       /\ fromHexChar mixed_case_example.[digit_position 5 + 1] = Some b
       /\ (fst (Parse mixed_case_example)).[5] = uint8 ((a << 4) .| b).
Proof.
  split; [reflexivity | split; [lia|]].
  apply (Parse_byte mixed_case_example 5); [reflexivity | lia].
Defined.
